(** * server::net::Connection — the per-connection request pipeline

    A shallow embedding of [core/src/server/net/connection.cpp]: the reader
    task ([ListenForRequests], [NewRequest]), the writer task
    ([ProcessResponses], [HandleQueueItem], [SendResponse]), [Start], [Stop]
    and [Shutdown], and the properties of the pipeline proved about them.

    Modelling conventions.
    - The two tasks are cooperative: each runs until its next suspension
      point.  A [System] holds the connection, the program counter of each
      task and the cancellation flag of the reader task; [step] lets one task
      run to its next suspension point, with the outcome of the external call
      it was suspended in ([RecvSome], the handler's [Get], the response's
      [SendResponse]) supplied by the environment.  A call that stays suspended
      is a step that changes nothing.
    - Request objects are shared ([std::shared_ptr]) between the parser, the
      handler task and the queue item: they live in a store, [requests], and
      are named by their index in it.
    - Every observable action appends an [Event] to [trace]; the temporal
      properties are stated on that trace.
    - Calls for which the source installs no handler of their own (logging,
      access logs, the time stamps) are taken not to throw. *)

From Stdlib Require Import ZArith Lia.
From stdpp Require Import base option list sorting.

Set Default Proof Using "Type".

(** ** Data *)

Inductive Level := kTrace | kDebug | kInfo | kWarning | kError.

(** [std::errc::connection_reset] and [std::errc::broken_pipe] as the raw
    values the source compares with ([ECONNRESET] and [EPIPE] on Linux). *)
Definition connection_reset : Z := 104.
Definition broken_pipe : Z := 32.

(** Modelled from the spec: [request::ResponseBase] is not among the
    sources.  "[is_sent()] predicate, [send(socket)] which writer_gets and marks
    sent, [set_send_failed(timestamp)] to record unsent status without
    I/O"; the response slot of a fresh request is empty. *)
Record Response := mkResponse {
  IsSent : bool;
  send_failed : bool;
  status : option Z
}.

Definition empty_response : Response := mkResponse false false None.

Definition SetSendFailed (r : Response) : Response :=
  mkResponse (IsSent r) true (status r).

Definition mark_sent (r : Response) : Response :=
  mkResponse true (send_failed r) (status r).

Definition populate (code : Z) (r : Response) : Response :=
  mkResponse (IsSent r) (send_failed r) (Some code).

(** Modelled from the spec: [request::RequestBase] is not among the
    sources.  It carries [is_final], its response, and the mutable send
    time stamps and access-log mark (recorded here as "has been set"). *)
Record RequestBase := mkRequest {
  IsFinal : bool;
  GetResponse : Response;
  start_send_response_time : bool;
  finish_send_response_time : bool;
  access_logs : nat
}.

Definition new_request (final : bool) : RequestBase :=
  mkRequest final empty_response false false 0.

Definition with_response (f : Response → Response) (r : RequestBase) : RequestBase :=
  mkRequest (IsFinal r) (f (GetResponse r)) (start_send_response_time r)
            (finish_send_response_time r) (access_logs r).

Definition SetStartSendResponseTime (r : RequestBase) : RequestBase :=
  mkRequest (IsFinal r) (GetResponse r) true (finish_send_response_time r)
            (access_logs r).

Definition SetFinishSendResponseTime (r : RequestBase) : RequestBase :=
  mkRequest (IsFinal r) (GetResponse r) (start_send_response_time r) true
            (access_logs r).

Definition WriteAccessLogs (r : RequestBase) : RequestBase :=
  mkRequest (IsFinal r) (GetResponse r) (start_send_response_time r)
            (finish_send_response_time r) (S (access_logs r)).

(** "the response is populated with a 500" *)
Definition MarkAsInternalServerError (r : RequestBase) : RequestBase :=
  with_response (populate 500) r.

(** What the environment decides at a suspension point. *)

(** [request_task.Get()] *)
Inductive GetOutcome :=
| GetOk (code : Z)              (* the handler populated the response *)
| GetTaskCancelled              (* engine::TaskCancelledException *)
| GetWaitInterrupted            (* engine::WaitInterruptedException *)
| GetException.                 (* any other std::exception *)

(** [response.SendResponse(peer_socket_)] *)
Inductive SendOutcome :=
| SendOk
| SendIoSystemError (code : Z)  (* engine::io::IoSystemError *)
| SendException.                (* any other std::exception *)

(** [peer_socket_.RecvSome(...)], and for received bytes what the parser makes
    of them: the complete requests they finish (each by its [is_final]) and
    the value [Parse] returns. *)
Inductive RecvOutcome :=
| RecvZero
| RecvBytes (parsed : list bool) (parse_ok : bool)
| RecvIoCancelled               (* engine::io::IoCancelled *)
| RecvIoSystemError (code : Z)  (* engine::io::IoSystemError *)
| RecvException.                (* any other std::exception *)

Inductive Event :=
| EvLog (l : Level)
| EvIncActiveRequests (id : nat)
| EvDecActiveRequests (id : nat)
| EvPush (id : nat) (ok : bool)
| EvPop (id : nat)
| EvHandle (id : nat)
| EvSendResponse (id : nat) (sent_before : bool)
| EvWire (id : nat)
| EvRequestCancel
| EvStop
| EvSyncCancel
| EvSocketClose
| EvDecActiveConnections
| EvIncConnectionsClosed
| EvCloseCb
| EvAssertSenderValid (holds : bool)
| EvAssertTasksEmpty (holds : bool)
| EvDetach.

(** ** The queue of request slots *)

Record QueueItem := mkItem {
  first : nat;    (* the request *)
  second : nat    (* the handle of its handler task *)
}.

(** Modelled from the spec: the single-producer/single-consumer queue
    ([Queue], [Queue::Producer], [Queue::Consumer]) is not among the sources.
    "FIFO with at-most-once delivery"; [push] "suspends until free capacity,
    item accepted; fails if consumer side has been dropped"; [pop] "suspends
    until an item is available or the producer side is dropped (then returns
    None)".  A suspended call is [None].  Both calls are suspension points of
    a cooperative task, and a cancelled task does not stay suspended in them:
    [Pop] on an empty queue and [Push] on a full one give up ([false]) when
    the calling task is cancelled.  The source presupposes as much: the first
    [ProcessResponses] of the writer returns after [Stop] while the producer
    is alive, and the sink provides for a refused [Push] although the
    consumer outlives the reader. *)
Record Queue := mkQueue {
  items : list QueueItem;
  max_length : option nat;
  producer_alive : bool;
  consumer_alive : bool
}.

Definition Queue_Create : Queue := mkQueue [] None true true.

Definition Size (q : Queue) : nat := length (items q).

Definition SetMaxLength (n : nat) (q : Queue) : Queue :=
  mkQueue (items q) (Some n) (producer_alive q) (consumer_alive q).

Definition has_room (q : Queue) : bool :=
  match max_length q with
  | None => true
  | Some n => Size q <? n
  end.

Definition Push (cancelled : bool) (x : QueueItem) (q : Queue) : option (bool * Queue) :=
  if negb (consumer_alive q) then Some (false, q)
  else if has_room q then
    Some (true, mkQueue (items q ++ [x]) (max_length q) (producer_alive q) (consumer_alive q))
  else if cancelled then Some (false, q)
  else None.

Definition Pop (cancelled : bool) (q : Queue) : option (option QueueItem * Queue) :=
  match items q with
  | x :: rest =>
      Some (Some x, mkQueue rest (max_length q) (producer_alive q) (consumer_alive q))
  | [] =>
      if negb (producer_alive q) || cancelled then Some (None, q) else None
  end.

Definition drop_producer (q : Queue) : Queue :=
  mkQueue (items q) (max_length q) false (consumer_alive q).

Definition drop_consumer (q : Queue) : Queue :=
  mkQueue (items q) (max_length q) (producer_alive q) false.

(** ** The connection *)

(** Modelled from the spec: the declaration of [ConnectionConfig] is not
    among the sources.  "Immutable per-connection parameters", of which the
    connection reads these two. *)
Record ConnectionConfig := mkConfig {
  in_buffer_size : nat;
  requests_queue_size_threshold : nat
}.

(** Modelled from the spec: the declaration of [Stats] is not among the
    sources.  "Process-wide counters, shared by reference"; they are taken
    as integers. *)
Record Stats := mkStats {
  active_connections : Z;
  connections_created : Z;
  connections_closed : Z;
  active_request_count : Z;
  requests_processed_count : Z
}.

(** Modelled from the spec: [engine::Task] is not among the sources.  The
    connection uses its validity ([IsValid], lost by [Detach]) and its
    cancellation flag ([RequestCancel] sets it,
    [current_task::IsCancelRequested] reads it). *)
Record Task := mkTask {
  IsValid : bool;
  cancel_requested : bool
}.

(** The members of [Connection], as its constructor initialises them,
    with the request objects its pointers refer to and the trace. *)
Record Connection := mkConnection {
  config_ : ConnectionConfig;
  stats_ : Stats;
  peer_socket_ : bool;                  (* [true]: open *)
  requests : list RequestBase;          (* the request objects *)
  request_tasks_ : Queue;
  is_accepting_requests_ : bool;
  is_response_chain_valid_ : bool;
  close_cb_ : bool;                     (* [true]: a callback is set *)
  response_sender_task_ : Task;
  trace : list Event
}.

Definition with_stats (f : Stats → Stats) (c : Connection) : Connection :=
  mkConnection (config_ c) (f (stats_ c)) (peer_socket_ c) (requests c)
    (request_tasks_ c) (is_accepting_requests_ c) (is_response_chain_valid_ c)
    (close_cb_ c) (response_sender_task_ c) (trace c).

Definition with_socket (b : bool) (c : Connection) : Connection :=
  mkConnection (config_ c) (stats_ c) b (requests c)
    (request_tasks_ c) (is_accepting_requests_ c) (is_response_chain_valid_ c)
    (close_cb_ c) (response_sender_task_ c) (trace c).

Definition with_requests (f : list RequestBase → list RequestBase) (c : Connection)
  : Connection :=
  mkConnection (config_ c) (stats_ c) (peer_socket_ c) (f (requests c))
    (request_tasks_ c) (is_accepting_requests_ c) (is_response_chain_valid_ c)
    (close_cb_ c) (response_sender_task_ c) (trace c).

Definition with_queue (q : Queue) (c : Connection) : Connection :=
  mkConnection (config_ c) (stats_ c) (peer_socket_ c) (requests c)
    q (is_accepting_requests_ c) (is_response_chain_valid_ c)
    (close_cb_ c) (response_sender_task_ c) (trace c).

Definition with_accepting (b : bool) (c : Connection) : Connection :=
  mkConnection (config_ c) (stats_ c) (peer_socket_ c) (requests c)
    (request_tasks_ c) b (is_response_chain_valid_ c)
    (close_cb_ c) (response_sender_task_ c) (trace c).

Definition with_chain_valid (b : bool) (c : Connection) : Connection :=
  mkConnection (config_ c) (stats_ c) (peer_socket_ c) (requests c)
    (request_tasks_ c) (is_accepting_requests_ c) b
    (close_cb_ c) (response_sender_task_ c) (trace c).

Definition with_close_cb (b : bool) (c : Connection) : Connection :=
  mkConnection (config_ c) (stats_ c) (peer_socket_ c) (requests c)
    (request_tasks_ c) (is_accepting_requests_ c) (is_response_chain_valid_ c)
    b (response_sender_task_ c) (trace c).

Definition with_sender_task (t : Task) (c : Connection) : Connection :=
  mkConnection (config_ c) (stats_ c) (peer_socket_ c) (requests c)
    (request_tasks_ c) (is_accepting_requests_ c) (is_response_chain_valid_ c)
    (close_cb_ c) t (trace c).

Definition emit (e : Event) (c : Connection) : Connection :=
  mkConnection (config_ c) (stats_ c) (peer_socket_ c) (requests c)
    (request_tasks_ c) (is_accepting_requests_ c) (is_response_chain_valid_ c)
    (close_cb_ c) (response_sender_task_ c) (trace c ++ [e]).

Definition LOG (l : Level) : Connection → Connection := emit (EvLog l).

(** The request object behind a pointer. *)
Definition deref (c : Connection) (id : nat) : RequestBase :=
  default (new_request false) (requests c !! id).

Definition update_request (id : nat) (f : RequestBase → RequestBase)
  : Connection → Connection :=
  with_requests (alter f id).

(** [Connection::Connection]: the socket is the accepted one, both flags are
    [true], two counters go up. *)
Definition Create (config : ConnectionConfig) (stats : Stats) : Connection :=
  mkConnection config
    (mkStats (active_connections stats + 1) (connections_created stats + 1)
             (connections_closed stats) (active_request_count stats)
             (requests_processed_count stats))
    true [] Queue_Create true true false (mkTask false false) [EvLog kDebug].

Definition SetCloseCb : Connection → Connection := with_close_cb true.

Definition RequestCancel (t : Task) : Task := mkTask (IsValid t) true.

Definition Detach (t : Task) : Task := mkTask false (cancel_requested t).

(** [Connection::Stop] *)
Definition Stop (c : Connection) : Connection :=
  emit EvStop (with_sender_task (RequestCancel (response_sender_task_ c)) c).

Definition IsRequestTasksEmpty (c : Connection) : bool :=
  Size (request_tasks_ c) =? 0.

(** [Connection::Shutdown] *)
Definition Shutdown (c : Connection) : Connection :=
  let c := emit (EvAssertSenderValid (IsValid (response_sender_task_ c))) c in
  let c := LOG kTrace c in
  let c := emit EvSocketClose (with_socket false c) in
  let c := emit EvDecActiveConnections
             (with_stats (λ s, mkStats (active_connections s - 1) (connections_created s)
                                  (connections_closed s) (active_request_count s)
                                  (requests_processed_count s)) c) in
  let c := emit EvIncConnectionsClosed
             (with_stats (λ s, mkStats (active_connections s) (connections_created s)
                                  (connections_closed s + 1) (active_request_count s)
                                  (requests_processed_count s)) c) in
  let c := if close_cb_ c then emit EvCloseCb c else c in
  let c := emit (EvAssertTasksEmpty (IsRequestTasksEmpty c)) c in
  emit EvDetach (with_sender_task (Detach (response_sender_task_ c)) c).

(** ** The reader *)

(** [request_handler_.StartRequestTask(request_ptr)]: the handle of the task
    that runs the handler of request [id]. *)
Definition StartRequestTask (id : nat) : nat := id.

Definition inc_active_request_count (s : Stats) : Stats :=
  mkStats (active_connections s) (connections_created s) (connections_closed s)
          (active_request_count s + 1) (requests_processed_count s).

(** [Connection::NewRequest]; [cancelled] is the cancellation flag of the
    calling (reader) task, which [Push] observes.  [None]: suspended in
    [Push]. *)
Definition NewRequest (id : nat) (cancelled : bool) (c : Connection)
  : option (bool * Connection) :=
  if negb (is_accepting_requests_ c) then Some (true, c)
  else
    let c := if IsFinal (deref c id) then with_accepting false c else c in
    let c := emit (EvIncActiveRequests id) (with_stats inc_active_request_count c) in
    match Push cancelled (mkItem id (StartRequestTask id)) (request_tasks_ c) with
    | None => None
    | Some (ok, q) => Some (ok, emit (EvPush id ok) (with_queue q c))
    end.

(** The sink handed to the parser in [ListenForRequests]. *)
Definition on_request (id : nat) (cancelled : bool) (c : Connection)
  : option Connection :=
  match NewRequest id cancelled c with
  | None => None
  | Some (ok, c) => Some (if ok then c else with_accepting false c)
  end.

(** The parser completes a request: the object is created and handed to the
    sink. *)
Definition parser_emit (final : bool) (cancelled : bool) (c : Connection)
  : option Connection :=
  let id := length (requests c) in
  on_request id cancelled (with_requests (λ l, l ++ [new_request final]) c).

(** The level at which [ListenForRequests] logs an [IoSystemError]. *)
Definition recv_error_level (code : Z) : Level :=
  if (code =? connection_reset)%Z then kWarning else kError.

(** Modelled from the spec: [utils::ScopeGuard] is not among the sources;
    the spec calls it the reader's "exit-scope guard".  The callback runs
    when the scope is left, unless [Release] was called before: that is what
    the call after the loop, on the way to "Gracefully stopping", is for. *)
Record ScopeGuard := mkGuard { armed : bool }.

Definition Release (g : ScopeGuard) : ScopeGuard := mkGuard false.

Definition leave_scope (g : ScopeGuard) (callback : Connection → Connection)
  (c : Connection) : Connection :=
  if armed g then callback c else c.

(** The callback of the guard [send_stopper]; [launched] is what
    [response_sender_launched_event_.WaitForEvent()] returns. *)
Definition send_stopper_callback (launched : bool) (c : Connection) : Connection :=
  if launched
  then emit EvRequestCancel
         (with_sender_task (RequestCancel (response_sender_task_ c)) c)
  else c.

(** ** The writer *)

(** [Connection::HandleQueueItem] *)
Definition HandleQueueItem (item : QueueItem) (get : GetOutcome) (c : Connection)
  : Connection :=
  let c := emit (EvHandle (first item)) c in
  if cancel_requested (response_sender_task_ c) then
    with_chain_valid false (LOG kDebug c)
  else
    match get with
    | GetOk code => update_request (first item) (with_response (populate code)) c
    | GetTaskCancelled => with_chain_valid false (LOG kDebug c)
    | GetWaitInterrupted => with_chain_valid false (LOG kDebug c)
    | GetException =>
        update_request (first item) MarkAsInternalServerError (LOG kWarning c)
    end.

(** The level at which [SendResponse] logs an [IoSystemError]. *)
Definition send_error_level (code : Z) : Level :=
  if (code =? broken_pipe)%Z then kWarning else kError.

Definition finish_request (s : Stats) : Stats :=
  mkStats (active_connections s) (connections_created s) (connections_closed s)
          (active_request_count s - 1) (requests_processed_count s + 1).

(** [Connection::SendResponse] *)
Definition SendResponse (id : nat) (send : SendOutcome) (c : Connection)
  : Connection :=
  let c := emit (EvSendResponse id (IsSent (GetResponse (deref c id)))) c in
  let c := update_request id SetStartSendResponseTime c in
  let c :=
    if is_response_chain_valid_ c && peer_socket_ c then
      match send with
      | SendOk => emit (EvWire id) (update_request id (with_response mark_sent) c)
      | SendIoSystemError code => LOG (send_error_level code) c
      | SendException =>
          update_request id (with_response SetSendFailed) (LOG kError c)
      end
    else update_request id (with_response SetSendFailed) c in
  let c := update_request id SetFinishSendResponseTime c in
  let c := emit (EvDecActiveRequests id) (with_stats finish_request c) in
  update_request id WriteAccessLogs c.

(** ** The two tasks *)

(** Where [ListenForRequests] stands. *)
Inductive ReaderPc :=
| RStart                                          (* not yet in the loop *)
| RLoop                                           (* at the loop condition *)
| RParse (pending : list bool) (parse_ok : bool)  (* inside [Parse] *)
| RDone.

(** Where the writer task started by [Start] stands. *)
Inductive WriterPc :=
| WFirstPass      (* first [ProcessResponses] *)
| WSyncCancel     (* in [socket_listener.SyncCancel()] *)
| WSecondPass     (* second [ProcessResponses] *)
| WShutdown       (* about to call [Shutdown] *)
| WDone.

Record System := mkSystem {
  conn : Connection;
  reader : ReaderPc;
  socket_listener_cancelled : bool;   (* cancellation flag of the reader task *)
  writer : WriterPc
}.

Record ReaderEnv := mkReaderEnv {
  recv : RecvOutcome;
  launched : bool       (* result of [response_sender_launched_event_.WaitForEvent()] *)
}.

Record WriterEnv := mkWriterEnv {
  get : GetOutcome;
  send : SendOutcome
}.

Definition on_conn (f : Connection → Connection) (s : System) : System :=
  mkSystem (f (conn s)) (reader s) (socket_listener_cancelled s) (writer s).

(** The reader task ends: the guard's scope is left (before a [catch] block,
    [after], runs), and the producer, owned by the task, goes with it. *)
Definition reader_exit (g : ScopeGuard) (env : ReaderEnv) (after : Connection → Connection)
  (s : System) : System :=
  let c := after (leave_scope g (send_stopper_callback (launched env)) (conn s)) in
  mkSystem (with_queue (drop_producer (request_tasks_ c)) c) RDone
           (socket_listener_cancelled s) (writer s).

(** [Connection::ListenForRequests], one stretch between suspension points. *)
Definition ListenForRequests (env : ReaderEnv) (s : System) : System :=
  let c := conn s in
  let send_stopper := mkGuard true in
  match reader s with
  | RStart =>
      mkSystem
        (with_queue (SetMaxLength (requests_queue_size_threshold (config_ c))
                                  (request_tasks_ c)) c)
        RLoop (socket_listener_cancelled s) (writer s)
  | RLoop =>
      if is_accepting_requests_ c then
        match recv env with
        | RecvZero => reader_exit send_stopper env id (on_conn (LOG kTrace) s)
        | RecvBytes parsed ok =>
            mkSystem (LOG kTrace c) (RParse parsed ok)
                     (socket_listener_cancelled s) (writer s)
        | RecvIoCancelled => reader_exit send_stopper env (LOG kTrace) s
        | RecvIoSystemError code =>
            reader_exit send_stopper env (LOG (recv_error_level code)) s
        | RecvException => reader_exit send_stopper env (LOG kError) s
        end
      else reader_exit (Release send_stopper) env (LOG kTrace) s
  | RParse (final :: pending) ok =>
      match parser_emit final (socket_listener_cancelled s) c with
      | None => s
      | Some c =>
          mkSystem c (RParse pending ok) (socket_listener_cancelled s) (writer s)
      end
  | RParse [] ok =>
      mkSystem (if ok then c else with_accepting false (LOG kDebug c))
               RLoop (socket_listener_cancelled s) (writer s)
  | RDone => s
  end.

(** One turn of the loop of [Connection::ProcessResponses]: [Pop], and for a
    popped item [HandleQueueItem] and [SendResponse].  [None]: suspended in
    [Pop]; [Some (false, _)]: the loop is left. *)
Definition ProcessResponses (env : WriterEnv) (c : Connection)
  : option (bool * Connection) :=
  match Pop (cancel_requested (response_sender_task_ c)) (request_tasks_ c) with
  | None => None
  | Some (None, _) => Some (false, c)
  | Some (Some item, q) =>
      let c := emit (EvPop (first item)) (with_queue q c) in
      let c := HandleQueueItem item (get env) c in
      Some (true, SendResponse (first item) (send env) c)
  end.

(** The task [response_sender_task_] of [Connection::Start], one stretch
    between suspension points. *)
Definition response_sender (env : WriterEnv) (s : System) : System :=
  match writer s with
  | WFirstPass =>
      match ProcessResponses env (conn s) with
      | None => s
      | Some (true, c) => mkSystem c (reader s) (socket_listener_cancelled s) WFirstPass
      | Some (false, c) => mkSystem (emit EvSyncCancel c) (reader s) true WSyncCancel
      end
  | WSyncCancel =>
      match reader s with
      | RDone => mkSystem (conn s) (reader s) (socket_listener_cancelled s) WSecondPass
      | _ => s
      end
  | WSecondPass =>
      match ProcessResponses env (conn s) with
      | None => s
      | Some (true, c) => mkSystem c (reader s) (socket_listener_cancelled s) WSecondPass
      | Some (false, c) => mkSystem c (reader s) (socket_listener_cancelled s) WShutdown
      end
  | WShutdown =>
      let c := Shutdown (conn s) in
      mkSystem (with_queue (drop_consumer (request_tasks_ c)) c)
               (reader s) (socket_listener_cancelled s) WDone
  | WDone => s
  end.

(** [Connection::Start]: both tasks exist, the writer holds the task handle. *)
Definition Start (c : Connection) : System :=
  let c := LOG kTrace c in
  let c := with_sender_task (mkTask true false) c in
  mkSystem (LOG kTrace c) RStart false WFirstPass.

(** What can happen next. *)
Inductive Action :=
| Reader (env : ReaderEnv)     (* the reader task runs *)
| Writer (env : WriterEnv)     (* the writer task runs *)
| CallStop.                    (* [Connection::Stop] is called *)

Definition step (a : Action) (s : System) : System :=
  match a with
  | Reader env => ListenForRequests env s
  | Writer env => response_sender env s
  | CallStop => on_conn Stop s
  end.

Definition run (acts : list Action) (s : System) : System :=
  foldl (λ s a, step a s) s acts.

(** A connection as the server sets it up: created, a close callback set or
    not, started. *)
Definition connect (config : ConnectionConfig) (stats : Stats) (cb : bool) : System :=
  Start ((if cb then SetCloseCb else id) (Create config stats)).

(** ** Reading the trace *)

(** Requests accepted by the queue, in the order of the [Push] calls. *)
Definition pushed (tr : list Event) : list nat :=
  omap (λ e, match e with EvPush id true => Some id | _ => None end) tr.

(** Requests whose [Push] was refused. *)
Definition refused (tr : list Event) : list nat :=
  omap (λ e, match e with EvPush id false => Some id | _ => None end) tr.

Definition popped (tr : list Event) : list nat :=
  omap (λ e, match e with EvPop id => Some id | _ => None end) tr.

Definition handled (tr : list Event) : list nat :=
  omap (λ e, match e with EvHandle id => Some id | _ => None end) tr.

(** Requests handed to [SendResponse]. *)
Definition responded (tr : list Event) : list nat :=
  omap (λ e, match e with EvSendResponse id _ => Some id | _ => None end) tr.

(** Requests whose response was written to the peer. *)
Definition wired (tr : list Event) : list nat :=
  omap (λ e, match e with EvWire id => Some id | _ => None end) tr.

Definition incremented (tr : list Event) : list nat :=
  omap (λ e, match e with EvIncActiveRequests id => Some id | _ => None end) tr.

Definition decremented (tr : list Event) : list nat :=
  omap (λ e, match e with EvDecActiveRequests id => Some id | _ => None end) tr.

(** The steps of [Shutdown] among the events. *)
Definition is_shutdown_event (e : Event) : bool :=
  match e with
  | EvSocketClose | EvDecActiveConnections | EvIncConnectionsClosed | EvCloseCb
  | EvAssertTasksEmpty _ | EvDetach => true
  | _ => false
  end.

Definition shutdown_steps (tr : list Event) : list Event :=
  filter (λ e, is_shutdown_event e = true) tr.

Definition queued (s : System) : list nat :=
  first <$> items (request_tasks_ (conn s)).

(** ** Sample connections *)

Definition sample_config : ConnectionConfig := mkConfig 4096 2.
Definition sample_stats : Stats := mkStats 0 0 0 0 0.

(** The reader task runs and [RecvSome] answers [r]. *)
Definition reader_gets (r : RecvOutcome) : Action := Reader (mkReaderEnv r true).

(** The reader task runs, at a place where it asks nothing of the
    environment. *)
Definition reader_runs : Action := reader_gets RecvZero.

(** The writer task runs; the handler answers [g] and the send [w]. *)
Definition writer_gets (g : GetOutcome) (w : SendOutcome) : Action :=
  Writer (mkWriterEnv g w).

(** The writer task runs, at a place where it asks nothing of the
    environment. *)
Definition writer_runs : Action := writer_gets (GetOk 200) SendOk.

(** A started connection whose reader stands at the loop condition. *)
Definition at_loop : System :=
  step reader_runs (connect sample_config sample_stats true).

(** A final request: the loop is left with the guard released. *)
Definition after_final_request : System :=
  run [reader_runs; reader_gets (RecvBytes [true] true); reader_runs;
       reader_runs; reader_runs]
      (connect sample_config sample_stats true).

(** One request is queued and handled; writing its response fails with
    [broken_pipe]. *)
Definition broken_pipe_on_send : System :=
  run [reader_runs; reader_gets (RecvBytes [false] true); reader_runs;
       writer_gets (GetOk 200) (SendIoSystemError broken_pipe)]
      (connect sample_config sample_stats true).

(** Two requests are queued, none handled yet. *)
Definition two_queued : System :=
  run [reader_runs; reader_gets (RecvBytes [false; false] true); reader_runs;
       reader_runs]
      (connect sample_config sample_stats true).

(** One buffer carries a final request and another one behind it; the parser
    is about to hand the first to the sink. *)
Definition final_then_another : System :=
  run [reader_runs; reader_gets (RecvBytes [true; false] true)]
      (connect sample_config sample_stats true).

(** ** Invariants of the pipeline *)

(** The operand of [UASSERT(!response.IsSent())] at the entry of
    [SendResponse]. *)
Definition unsent_at_entry (e : Event) : Prop :=
  match e with
  | EvSendResponse _ sent_before => sent_before = false
  | _ => True
  end.

(** What the reader and the writer keep true of the queue, the requests and
    the trace. *)
Record pipeline_inv (s : System) : Prop := mkPipelineInv {
  inv_fifo : popped (trace (conn s)) ++ queued s = pushed (trace (conn s));
  inv_handled : handled (trace (conn s)) = popped (trace (conn s));
  inv_responded : responded (trace (conn s)) = popped (trace (conn s));
  inv_wired : wired (trace (conn s)) `sublist_of` responded (trace (conn s));
  inv_allocated :
    Forall (λ id, id < length (requests (conn s))) (pushed (trace (conn s)));
  inv_parse_order : StronglySorted lt (pushed (trace (conn s)));
  inv_distinct : NoDup (pushed (trace (conn s)));
  inv_untouched :
    Forall (λ id, GetResponse <$> requests (conn s) !! id = Some empty_response)
           (queued s);
  inv_unsent : Forall unsent_at_entry (trace (conn s))
}.

(** ** Teardown *)

Definition has_shutdown (tr : list Event) : bool := existsb is_shutdown_event tr.

(** The trace up to the first step of [Shutdown]. *)
Fixpoint before_shutdown (tr : list Event) : list Event :=
  match tr with
  | [] => []
  | e :: tr => if is_shutdown_event e then [] else e :: before_shutdown tr
  end.

Definition close_cb_calls (tr : list Event) : nat :=
  length (omap (λ e, match e with EvCloseCb => Some e | _ => None end) tr).

Definition sync_cancels (tr : list Event) : nat :=
  length (omap (λ e, match e with EvSyncCancel => Some e | _ => None end) tr).

(** The steps of [Shutdown], in the order of the source. *)
Definition Shutdown_steps (cb : bool) : list Event :=
  [EvSocketClose; EvDecActiveConnections; EvIncConnectionsClosed]
  ++ (if cb then [EvCloseCb] else [])
  ++ [EvAssertTasksEmpty true; EvDetach].

(** Before [Shutdown]: the socket is open, the writer's handle is valid, no
    step of [Shutdown] has happened. *)
Definition not_shut_down (stats : Stats) (s : System) : Prop :=
  peer_socket_ (conn s) = true ∧
  IsValid (response_sender_task_ (conn s)) = true ∧
  has_shutdown (trace (conn s)) = false ∧
  shutdown_steps (trace (conn s)) = [] ∧
  close_cb_calls (trace (conn s)) = 0 ∧
  active_connections (stats_ (conn s)) = (active_connections stats + 1)%Z ∧
  connections_closed (stats_ (conn s)) = connections_closed stats.

(** Where the writer task stands, and what that says about the rest. *)
Definition teardown_inv (stats : Stats) (cb : bool) (s : System) : Prop :=
  close_cb_ (conn s) = cb ∧
  match writer s with
  | WFirstPass =>
      not_shut_down stats s ∧ sync_cancels (trace (conn s)) = 0
  | WSyncCancel =>
      not_shut_down stats s ∧ sync_cancels (trace (conn s)) = 1 ∧
      socket_listener_cancelled s = true
  | WSecondPass =>
      not_shut_down stats s ∧ sync_cancels (trace (conn s)) = 1 ∧
      reader s = RDone
  | WShutdown =>
      not_shut_down stats s ∧ sync_cancels (trace (conn s)) = 1 ∧
      reader s = RDone ∧ items (request_tasks_ (conn s)) = []
  | WDone =>
      reader s = RDone ∧ items (request_tasks_ (conn s)) = [] ∧
      sync_cancels (before_shutdown (trace (conn s))) = 1 ∧
      peer_socket_ (conn s) = false ∧
      has_shutdown (trace (conn s)) = true ∧
      shutdown_steps (trace (conn s)) = Shutdown_steps cb ∧
      close_cb_calls (trace (conn s)) = (if cb then 1 else 0) ∧
      active_connections (stats_ (conn s)) = active_connections stats ∧
      connections_closed (stats_ (conn s)) = (connections_closed stats + 1)%Z ∧
      pushed (before_shutdown (trace (conn s))) = pushed (trace (conn s)) ∧
      popped (before_shutdown (trace (conn s))) = popped (trace (conn s)) ∧
      handled (before_shutdown (trace (conn s))) = handled (trace (conn s)) ∧
      responded (before_shutdown (trace (conn s))) = responded (trace (conn s))
  end.



(** ** Accounting *)

(** Requests for which [Push] was called, accepted or not. *)
Definition attempted (tr : list Event) : list nat :=
  omap (λ e, match e with EvPush id _ => Some id | _ => None end) tr.

(** [active_request_count] and [requests_processed_count] against the
    trace. *)
Record accounting_inv (stats : Stats) (s : System) : Prop := mkAccountingInv {
  acc_incremented : incremented (trace (conn s)) = attempted (trace (conn s));
  acc_decremented : decremented (trace (conn s)) = responded (trace (conn s));
  acc_active :
    active_request_count (stats_ (conn s)) =
      (active_request_count stats + Z.of_nat (length (incremented (trace (conn s))))
       - Z.of_nat (length (decremented (trace (conn s)))))%Z;
  acc_processed :
    requests_processed_count (stats_ (conn s)) =
      (requests_processed_count stats
       + Z.of_nat (length (decremented (trace (conn s)))))%Z
}.

(** The queue holds two slots and the reader task is cancelled while it
    pushes a third one. *)
Definition refused_push_schedule : list Action :=
  [reader_runs; reader_gets (RecvBytes [false; false; false] true);
   CallStop;
   writer_runs;                        (* [Pop] gives up; [SyncCancel] *)
   reader_runs; reader_runs;           (* two slots pushed: the queue is full *)
   reader_runs;                        (* the third [Push] is refused *)
   reader_runs; reader_runs;           (* [Parse] returns; the loop is left *)
   writer_runs;                        (* [SyncCancel] returns *)
   writer_gets (GetOk 200) SendOk; writer_gets (GetOk 200) SendOk;
   writer_runs;                        (* [Pop] on the drained queue *)
   writer_runs].                       (* [Shutdown] *)

Definition refused_push : System :=
  run refused_push_schedule (connect sample_config sample_stats true).

(** * Properties *)

Lemma run_snoc acts a s : run (acts ++ [a]) s = step a (run acts s).
Proof. unfold run. by rewrite foldl_app. Qed.

Lemma run_app acts1 acts2 s : run (acts1 ++ acts2) s = run acts2 (run acts1 s).
Proof. unfold run. by rewrite foldl_app. Qed.

(** An invariant of [step] that holds initially holds after every run. *)
Lemma run_invariant (P : System → Prop) (s0 : System) :
  P s0 → (∀ s a, P s → P (step a s)) → ∀ acts, P (run acts s0).
Proof.
  intros H0 Hstep acts. induction acts as [|a acts IH] using rev_ind; [done|].
  rewrite run_snoc. by apply Hstep.
Qed.

(** ** The trace, event by event *)

Lemma pushed_snoc tr e :
  pushed (tr ++ [e]) = pushed tr ++ match e with EvPush id true => [id] | _ => [] end.
Proof.
  unfold pushed. rewrite omap_app. f_equal.
  destruct e as [| | |id ok| | | | | | | | | | | | | |]; try done. by destruct ok.
Qed.

Lemma popped_snoc tr e :
  popped (tr ++ [e]) = popped tr ++ match e with EvPop id => [id] | _ => [] end.
Proof. unfold popped. rewrite omap_app. by destruct e. Qed.

Lemma handled_snoc tr e :
  handled (tr ++ [e]) = handled tr ++ match e with EvHandle id => [id] | _ => [] end.
Proof. unfold handled. rewrite omap_app. by destruct e. Qed.

Lemma responded_snoc tr e :
  responded (tr ++ [e]) =
  responded tr ++ match e with EvSendResponse id _ => [id] | _ => [] end.
Proof. unfold responded. rewrite omap_app. by destruct e. Qed.

Lemma wired_snoc tr e :
  wired (tr ++ [e]) = wired tr ++ match e with EvWire id => [id] | _ => [] end.
Proof. unfold wired. rewrite omap_app. by destruct e. Qed.

Lemma incremented_snoc tr e :
  incremented (tr ++ [e]) =
  incremented tr ++ match e with EvIncActiveRequests id => [id] | _ => [] end.
Proof. unfold incremented. rewrite omap_app. by destruct e. Qed.

Lemma decremented_snoc tr e :
  decremented (tr ++ [e]) =
  decremented tr ++ match e with EvDecActiveRequests id => [id] | _ => [] end.
Proof. unfold decremented. rewrite omap_app. by destruct e. Qed.

Lemma refused_snoc tr e :
  refused (tr ++ [e]) = refused tr ++ match e with EvPush id false => [id] | _ => [] end.
Proof.
  unfold refused. rewrite omap_app. f_equal.
  destruct e as [| | |id ok| | | | | | | | | | | | | |]; try done. by destruct ok.
Qed.

Create Rewrite HintDb trace.
#[local] Hint Rewrite pushed_snoc popped_snoc handled_snoc responded_snoc wired_snoc
  incremented_snoc decremented_snoc refused_snoc : trace.
#[local] Hint Rewrite @app_nil_r : trace.

#[local] Arguments pushed : simpl never.
#[local] Arguments popped : simpl never.
#[local] Arguments handled : simpl never.
#[local] Arguments responded : simpl never.
#[local] Arguments wired : simpl never.
#[local] Arguments incremented : simpl never.
#[local] Arguments decremented : simpl never.
#[local] Arguments refused : simpl never.

(** Unfolds a step of a task into its cases, keeping the readings of the
    trace folded. *)
Ltac task_cases :=
  repeat first
    [ done
    | progress cbn in *
    | progress (autorewrite with trace in * )
    | case_match; simplify_eq ].

Ltac unfold_reader :=
  unfold ListenForRequests, reader_exit, leave_scope, send_stopper_callback,
    parser_emit, on_request, NewRequest, Push, on_conn in *.

Ltac unfold_writer :=
  unfold response_sender, ProcessResponses, Pop, HandleQueueItem, SendResponse,
    Shutdown, update_request, on_conn in *.

(** ** Reader: the level of an I/O error, and who is told about the exit *)

Lemma recv_error_level_spec code :
  recv_error_level code = if decide (code = connection_reset) then kWarning else kError.
Proof.
  unfold recv_error_level. case_decide as Hc; [by rewrite Hc|].
  by destruct (Z.eqb_spec code connection_reset).
Qed.

(** C4, as the code has it: an [IoSystemError] thrown by [RecvSome] is logged
    at warning level exactly when its code is [connection_reset], at error
    level for every other code; the reader task then ends normally, and the
    writer goes on. *)
Theorem recv_io_error_level (s : System) (env : ReaderEnv) (code : Z) :
  reader s = RLoop →
  is_accepting_requests_ (conn s) = true →
  recv env = RecvIoSystemError code →
  let s' := ListenForRequests env s in
  trace (conn s') =
    trace (conn s) ++ (if launched env then [EvRequestCancel] else [])
      ++ [EvLog (if decide (code = connection_reset) then kWarning else kError)]
  ∧ reader s' = RDone
  ∧ writer s' = writer s
  ∧ ∀ env', ListenForRequests env' s' = s'.
Proof.
  intros Hpc Hacc Hrecv. unfold ListenForRequests. rewrite Hpc, Hacc, Hrecv.
  cbn. split; [|done].
  rewrite recv_error_level_spec.
  destruct (launched env); cbn; [|done].
  by rewrite <- app_assoc.
Qed.

Lemma recv_io_error_level_witness :
  trace (conn (ListenForRequests
                 (mkReaderEnv (RecvIoSystemError connection_reset) true) at_loop))
  = [EvLog kDebug; EvLog kTrace; EvLog kTrace; EvRequestCancel; EvLog kWarning].
Proof.
  exact (proj1 (recv_io_error_level at_loop
                  (mkReaderEnv (RecvIoSystemError connection_reset) true)
                  connection_reset eq_refl eq_refl eq_refl)).
Defined.

(** C4, as stated, fails for [broken_pipe]: the reader logs it at error
    level. *)
Lemma recv_broken_pipe_is_logged_as_error :
  let s' := ListenForRequests (mkReaderEnv (RecvIoSystemError broken_pipe) true) at_loop in
  reader at_loop = RLoop ∧ is_accepting_requests_ (conn at_loop) = true ∧
  trace (conn s') =
    [EvLog kDebug; EvLog kTrace; EvLog kTrace; EvRequestCancel; EvLog kError] ∧
  EvLog kWarning ∉ trace (conn s').
Proof.
  repeat split; try reflexivity.
  cbn. intros H. repeat (apply elem_of_cons in H as [H|H]; [discriminate H|]).
  by apply elem_of_nil in H.
Qed.




(** ** Reader: the sink *)

(** Once [is_accepting_requests_] is false it stays false, and nothing is
    pushed any more. *)
Lemma not_accepting_step s a :
  is_accepting_requests_ (conn s) = false →
  is_accepting_requests_ (conn (step a s)) = false ∧
  pushed (trace (conn (step a s))) = pushed (trace (conn s)) ∧
  incremented (trace (conn (step a s))) = incremented (trace (conn s)).
Proof.
  destruct s as [c pc rc wp]. cbn. intros Hacc.
  destruct a as [env|env|]; cbn.
  - unfold_reader. cbn. rewrite ?Hacc. task_cases.
  - unfold_writer. task_cases.
  - by autorewrite with trace.
Qed.

Lemma not_accepting_run acts s :
  is_accepting_requests_ (conn s) = false →
  is_accepting_requests_ (conn (run acts s)) = false ∧
  pushed (trace (conn (run acts s))) = pushed (trace (conn s)) ∧
  incremented (trace (conn (run acts s))) = incremented (trace (conn s)).
Proof.
  intros Hacc. induction acts as [|a acts (IH1 & IH2 & IH3)] using rev_ind; [done|].
  rewrite run_snoc.
  destruct (not_accepting_step (run acts s) a IH1) as (H1 & H2 & H3).
  by rewrite H1, H2, H3.
Qed.

(** C5: the sink drops a request when [is_accepting_requests_] is already
    false (nothing is counted, nothing pushed); a final request clears the
    flag and is still pushed, so that it joins the queue whenever the queue
    takes it; and after the sink has taken a final request out of a buffer,
    nothing is ever pushed again, whatever is left in the buffer. *)
Theorem final_request_closes_intake :
  (∀ id cancelled c,
     is_accepting_requests_ c = false →
     NewRequest id cancelled c = Some (true, c)) ∧
  (∀ id cancelled c ok q,
     is_accepting_requests_ c = true →
     IsFinal (deref c id) = true →
     Push cancelled (mkItem id (StartRequestTask id)) (request_tasks_ c) = Some (ok, q) →
     ∃ c', NewRequest id cancelled c = Some (ok, c') ∧
           is_accepting_requests_ c' = false ∧
           request_tasks_ c' = q ∧
           trace c' = trace c ++ [EvIncActiveRequests id; EvPush id ok] ∧
           (ok = true →
            items q = items (request_tasks_ c) ++ [mkItem id (StartRequestTask id)])) ∧
  (∀ s env pending ok acts,
     reader s = RParse (true :: pending) ok →
     let s1 := step (Reader env) s in
     reader s1 = RParse pending ok →
     is_accepting_requests_ (conn s1) = false ∧
     pushed (trace (conn (run acts s1))) = pushed (trace (conn s1))).
Proof.
  split_and!.
  - intros id cancelled c Hacc. unfold NewRequest. by rewrite Hacc.
  - intros id cancelled c ok q Hacc Hfinal Hpush.
    unfold NewRequest. rewrite Hacc. cbn. rewrite Hfinal. cbn. rewrite Hpush.
    eexists. split; [reflexivity|]. cbn. split_and!; [done|done|by rewrite <- app_assoc|].
    intros ->. unfold Push in Hpush. by repeat (case_match; simplify_eq).
  - intros s env pending ok acts Hpc s1 Hpc1.
    assert (is_accepting_requests_ (conn s1) = false) as Hclosed.
    { subst s1. destruct s as [c pc rc wp]. cbn in *. subst pc. cbn in *.
      destruct (parser_emit true rc c) as [c'|] eqn:Hemit; cbn in *.
      - clear Hpc1. unfold parser_emit, on_request, NewRequest, deref in Hemit.
        cbn in Hemit. rewrite lookup_app_r, Nat.sub_diag in Hemit by done.
        cbn in Hemit. destruct (is_accepting_requests_ c) eqn:Hacc; cbn in Hemit.
        + destruct (Push _ _ _) as [[[] ?]|]; simplify_eq; reflexivity.
        + by simplify_eq.
      - apply (f_equal (λ pc, match pc with RParse p _ => length p | _ => 0 end)) in Hpc1.
        cbn in Hpc1. lia. }
    split; [done|]. by apply not_accepting_run.
Qed.

Lemma final_request_closes_intake_witness :
  NewRequest 7 false (conn after_final_request)
    = Some (true, conn after_final_request) ∧
  pushed (trace (conn (run [reader_runs; reader_runs]
                         (step reader_runs final_then_another)))) = [0].
Proof.
  destruct final_request_closes_intake as (Hdrop & _ & Hbuffer). split.
  - exact (Hdrop 7 false (conn after_final_request) eq_refl).
  - exact (proj2 (Hbuffer final_then_another (mkReaderEnv RecvZero true) [false] true
                    [reader_runs; reader_runs] eq_refl eq_refl)).
Defined.

(** ** Writer: one slot *)

Lemma deref_lookup c id r : requests c !! id = Some r → deref c id = r.
Proof. unfold deref. by intros ->. Qed.

(** What [SendResponse] leaves in the response, by the way it went. *)
Lemma SendResponse_response id send c r :
  requests c !! id = Some r →
  GetResponse (deref (SendResponse id send c) id) =
    if is_response_chain_valid_ c && peer_socket_ c then
      match send with
      | SendOk => mark_sent (GetResponse r)
      | SendIoSystemError _ => GetResponse r
      | SendException => SetSendFailed (GetResponse r)
      end
    else SetSendFailed (GetResponse r).
Proof.
  intros Hr. unfold SendResponse, deref. cbn.
  destruct (is_response_chain_valid_ c && peer_socket_ c); [destruct send|]; cbn;
    rewrite !list_lookup_alter_eq, Hr; done.
Qed.

(** Unless [response.SendResponse] threw an [IoSystemError], a response that
    was neither sent nor failed is exactly one of the two afterwards. *)
Lemma SendResponse_one_flag id send c r :
  requests c !! id = Some r →
  IsSent (GetResponse r) = false → send_failed (GetResponse r) = false →
  (∀ code, send ≠ SendIoSystemError code) →
  let r' := GetResponse (deref (SendResponse id send c) id) in
  xorb (IsSent r') (send_failed r') = true.
Proof.
  intros Hr Hs Hf Hsend. cbn. rewrite (SendResponse_response _ _ _ r Hr).
  destruct (is_response_chain_valid_ c && peer_socket_ c); [destruct send|]; cbn;
    rewrite ?Hs, ?Hf; try done.
  by destruct (Hsend code).
Qed.

(** C2 at the failing input: a slot is popped on a healthy connection, the
    handler succeeded, and [response.SendResponse] throws an
    [IoSystemError] ([broken_pipe]).  [SendResponse] logs, and completes with
    the response neither sent nor marked as failed. *)
Lemma send_io_error_sets_neither_flag :
  trace (conn broken_pipe_on_send) =
    [EvLog kDebug; EvLog kTrace; EvLog kTrace;
     EvLog kTrace; EvIncActiveRequests 0; EvPush 0 true;
     EvPop 0; EvHandle 0; EvSendResponse 0 false;
     EvLog kWarning; EvDecActiveRequests 0] ∧
  GetResponse (deref (conn broken_pipe_on_send) 0) = mkResponse false false (Some 200%Z).
Proof. split; reflexivity. Qed.

(** C7: an exception out of the handler, other than the two interruption
    ones, makes the writer mark the request as a 500, take it through
    [SendResponse], and leave [is_response_chain_valid_] and the rest of the
    queue as they were; on a valid chain and an open socket the 500 goes to
    the peer. *)
Theorem handler_exception_is_a_500 (c : Connection) (env : WriterEnv)
    (item : QueueItem) (rest : list QueueItem) (r : RequestBase) :
  items (request_tasks_ c) = item :: rest →
  requests c !! first item = Some r →
  cancel_requested (response_sender_task_ c) = false →
  get env = GetException →
  ∃ c',
    ProcessResponses env c = Some (true, c') ∧
    status (GetResponse (deref c' (first item))) = Some 500%Z ∧
    handled (trace c') = handled (trace c) ++ [first item] ∧
    responded (trace c') = responded (trace c) ++ [first item] ∧
    is_response_chain_valid_ c' = is_response_chain_valid_ c ∧
    items (request_tasks_ c') = rest ∧
    (is_response_chain_valid_ c = true → peer_socket_ c = true →
     send env = SendOk →
       wired (trace c') = wired (trace c) ++ [first item] ∧
       IsSent (GetResponse (deref c' (first item))) = true).
Proof.
  intros Hq Hr Hcancel Hget.
  unfold ProcessResponses, Pop. rewrite Hq. cbn.
  unfold HandleQueueItem. cbn. rewrite Hcancel, Hget.
  eexists. split; [reflexivity|].
  split.
  { erewrite SendResponse_response.
    2:{ cbn. rewrite list_lookup_alter_eq, Hr. done. }
    cbn. by repeat case_match. }
  unfold SendResponse. cbn.
  unfold handled, responded, wired.
  split_and!.
  - destruct (is_response_chain_valid_ c && peer_socket_ c), (send env); cbn;
      rewrite !omap_app; cbn; by rewrite !app_nil_r.
  - destruct (is_response_chain_valid_ c && peer_socket_ c), (send env); cbn;
      rewrite !omap_app; cbn; by rewrite !app_nil_r.
  - by destruct (is_response_chain_valid_ c && peer_socket_ c), (send env).
  - by destruct (is_response_chain_valid_ c && peer_socket_ c), (send env).
  - intros Hv Ho Hs. rewrite Hv, Ho, Hs. cbn. split.
    + rewrite !omap_app. cbn. by rewrite !app_nil_r.
    + unfold deref. cbn. by rewrite !list_lookup_alter_eq, Hr.
Qed.

Lemma handler_exception_is_a_500_witness :
  ∃ c', ProcessResponses (mkWriterEnv GetException SendOk) (conn two_queued)
          = Some (true, c') ∧
        status (GetResponse (deref c' 0)) = Some 500%Z ∧
        wired (trace c') = [0].
Proof.
  destruct (handler_exception_is_a_500 (conn two_queued)
              (mkWriterEnv GetException SendOk) (mkItem 0 0) [mkItem 1 1]
              (new_request false) eq_refl eq_refl eq_refl eq_refl)
    as (c' & Hrun & Hstatus & _ & _ & _ & _ & Hwire).
  exists c'. split_and!; [assumption..|].
  exact (proj1 (Hwire eq_refl eq_refl eq_refl)).
Defined.

(** ** The pipeline invariant *)

Lemma allocated_snoc (l : list RequestBase) r ids :
  Forall (λ id, id < length l) ids → Forall (λ id, id < length (l ++ [r])) ids.
Proof.
  intros H. eapply Forall_impl; [exact H|].
  intros id Hid. rewrite length_app. cbn in *. lia.
Qed.

Lemma untouched_snoc (l : list RequestBase) r ids :
  Forall (λ id, GetResponse <$> l !! id = Some empty_response) ids →
  Forall (λ id, GetResponse <$> (l ++ [r]) !! id = Some empty_response) ids.
Proof.
  intros H. eapply Forall_impl; [exact H|]. intros id Hid. cbn in Hid.
  destruct (l !! id) as [x|] eqn:Hx; [|done].
  by rewrite (lookup_app_l_Some _ _ _ _ Hx).
Qed.

Lemma untouched_alter f id (l : list RequestBase) ids :
  id ∉ ids →
  Forall (λ j, GetResponse <$> l !! j = Some empty_response) ids →
  Forall (λ j, GetResponse <$> alter f id l !! j = Some empty_response) ids.
Proof.
  intros Hid. rewrite !Forall_forall. intros Hall j Hj.
  rewrite list_lookup_alter_ne; [by apply Hall|]. by intros ->.
Qed.

Lemma fresh_distinct (ids : list nat) n :
  Forall (λ id, id < n) ids → NoDup ids → NoDup (ids ++ [n]).
Proof.
  intros Hlt Hnd. apply NoDup_app. split_and!; [done| |apply NoDup_singleton].
  intros id Hid ->%list_elem_of_singleton.
  rewrite Forall_forall in Hlt. specialize (Hlt _ Hid). lia.
Qed.

Lemma fresh_sorted (ids : list nat) n :
  Forall (λ id, id < n) ids → StronglySorted lt ids → StronglySorted lt (ids ++ [n]).
Proof.
  intros Hlt Hs. apply StronglySorted_app. split_and!; [|done|repeat constructor].
  intros id ? Hid ->%list_elem_of_singleton.
  rewrite Forall_forall in Hlt. by apply Hlt.
Qed.

Lemma head_not_in_rest (done_ rest all : list nat) id :
  done_ ++ id :: rest = all → NoDup all → id ∉ rest.
Proof.
  intros <- Hnd. apply NoDup_app in Hnd as (_ & _ & Hnd).
  by apply NoDup_cons in Hnd as [? _].
Qed.

Lemma pipeline_inv_reader s env : pipeline_inv s → pipeline_inv (ListenForRequests env s).
Proof.
  destruct s as [c pc rc wp]. intros [H1 H2 H3 H4 H5 Hs H6 H7 H8].
  unfold queued in *. cbn in *.
  unfold_reader.
  task_cases.
  all: split; unfold queued; cbn; autorewrite with trace; try done.
  all: rewrite ?Forall_app, ?Forall_singleton; cbn.
  all: auto using allocated_snoc, untouched_snoc, fresh_distinct, fresh_sorted.
  all: try by rewrite fmap_app, app_assoc, H1.
  all: try (split; [by apply allocated_snoc|rewrite length_app; cbn; lia]).
  all: rewrite fmap_app, Forall_app; cbn; rewrite Forall_singleton.
  all: split; [by apply untouched_snoc|].
  all: by rewrite lookup_app_r, Nat.sub_diag.
Qed.

Lemma pipeline_inv_writer s env : pipeline_inv s → pipeline_inv (response_sender env s).
Proof.
  destruct s as [c pc rc wp]. intros [H1 H2 H3 H4 H5 Hs H6 H7 H8].
  unfold queued in *. cbn in *.
  unfold_writer.
  task_cases.
  all: split; unfold queued; cbn; autorewrite with trace; try done.
  all: rewrite ?length_alter; try done.
  all: rewrite ?H2, ?H3.
  all: try by rewrite <- app_assoc.
  all: try (rewrite <- H3; first [ by apply sublist_app | by apply sublist_inserts_r ]).
  all: try (apply Forall_cons in H7 as [_ H7];
            by repeat apply untouched_alter; try done;
            eapply head_not_in_rest).
  all: try (rewrite !Forall_app, !Forall_singleton; cbn; split_and!; try done).
  all: try by (match goal with H : items _ = [] |- _ => rewrite H end;
               cbn; rewrite ?app_nil_r).
  all: apply Forall_cons in H7 as [Hhead _]; unfold deref; cbn.
  all: rewrite ?list_lookup_alter_eq.
  all: destruct (requests c !! first q0) as [r|]; [|done].
  all: cbn in *; injection Hhead as ->; done.
Qed.

Lemma pipeline_inv_step s a : pipeline_inv s → pipeline_inv (step a s).
Proof.
  destruct a as [env|env|]; cbn.
  - apply pipeline_inv_reader.
  - apply pipeline_inv_writer.
  - intros [H1 H2 H3 H4 H5 Hs H6 H7 H8].
    split; unfold queued in *; cbn; autorewrite with trace; try done.
    rewrite Forall_app, Forall_singleton. by split.
Qed.

(** From here on: a connection created with [config], while the counters
    stand at [stats], with a close callback or without ([cb]), and started. *)
Section Connected.

Context (config : ConnectionConfig) (stats : Stats) (cb : bool).

Lemma pipeline_inv_connect : pipeline_inv (connect config stats cb).
Proof.
  destruct cb; split; try reflexivity; unfold pushed, queued; cbn.
  all: by repeat constructor.
Qed.

Lemma pipeline_inv_run acts :
  pipeline_inv (run acts (connect config stats cb)).
Proof.
  apply run_invariant; [apply pipeline_inv_connect|apply pipeline_inv_step].
Qed.


(** C1: on every connection and under every schedule, the writer pops the
    slots in the order the reader pushed them (what was popped, followed by
    what is still queued, is what was pushed), hands them to [SendResponse]
    in that order, and the responses that reach the peer are a subsequence of
    the pushed requests, in their order; the pushed requests are pairwise
    distinct and, being named by their place in the parse order, pushed in
    the order they were parsed. *)
Theorem responses_in_request_order acts :
  let s := run acts (connect config stats cb) in
  let tr := trace (conn s) in
  popped tr ++ queued s = pushed tr ∧
  popped tr `prefix_of` pushed tr ∧
  responded tr = popped tr ∧
  wired tr `sublist_of` pushed tr ∧
  StronglySorted lt (pushed tr) ∧
  NoDup (pushed tr).
Proof.
  cbn. destruct (pipeline_inv_run acts) as [H1 H2 H3 H4 H5 Hs H6 H7 H8].
  split_and!; try done.
  - rewrite <- H1. by apply prefix_app_r.
  - etrans; [done|]. rewrite H3, <- H1. by apply sublist_inserts_r.
Qed.

(** C9: whenever the writer enters [SendResponse] the response has not been
    sent (the operand of the [UASSERT] is [false]), and no request enters
    [SendResponse] twice. *)
Theorem response_sent_at_most_once acts :
  let tr := trace (conn (run acts (connect config stats cb))) in
  Forall unsent_at_entry tr ∧ NoDup (responded tr).
Proof.
  cbn. destruct (pipeline_inv_run acts) as [H1 H2 H3 H4 H5 Hs H6 H7 H8].
  split; [done|].
  rewrite H3. rewrite <- H1 in H6. by apply NoDup_app in H6 as (? & _ & _).
Qed.

(** ** Teardown *)

(** [Shutdown], step by step. *)
Lemma Shutdown_trace c :
  trace (Shutdown c) =
    trace c
    ++ [EvAssertSenderValid (IsValid (response_sender_task_ c)); EvLog kTrace;
        EvSocketClose; EvDecActiveConnections; EvIncConnectionsClosed]
    ++ (if close_cb_ c then [EvCloseCb] else [])
    ++ [EvAssertTasksEmpty (IsRequestTasksEmpty c); EvDetach].
Proof.
  unfold Shutdown. cbn. destruct (close_cb_ c); cbn; by rewrite <- !app_assoc.
Qed.

Lemma Shutdown_state c :
  peer_socket_ (Shutdown c) = false ∧
  IsValid (response_sender_task_ (Shutdown c)) = false ∧
  request_tasks_ (Shutdown c) = request_tasks_ c ∧
  active_connections (stats_ (Shutdown c)) = (active_connections (stats_ c) - 1)%Z ∧
  connections_closed (stats_ (Shutdown c)) = (connections_closed (stats_ c) + 1)%Z.
Proof. unfold Shutdown. cbn. by destruct (close_cb_ c). Qed.

Lemma has_shutdown_snoc tr e :
  has_shutdown (tr ++ [e]) = has_shutdown tr || is_shutdown_event e.
Proof. unfold has_shutdown. rewrite existsb_app. cbn. by rewrite orb_false_r. Qed.

Lemma before_shutdown_snoc tr e :
  before_shutdown (tr ++ [e]) =
  before_shutdown tr ++ (if has_shutdown tr || is_shutdown_event e then [] else [e]).
Proof.
  induction tr as [|x tr IH]; cbn.
  - by destruct (is_shutdown_event e).
  - destruct (is_shutdown_event x); cbn; [done|]. by rewrite IH.
Qed.

Lemma before_shutdown_all tr : has_shutdown tr = false → before_shutdown tr = tr.
Proof.
  induction tr as [|x tr IH]; cbn; [done|].
  destruct (is_shutdown_event x); cbn; [done|]. intros H. by rewrite IH.
Qed.

Lemma shutdown_steps_snoc tr e :
  shutdown_steps (tr ++ [e]) =
  shutdown_steps tr ++ (if is_shutdown_event e then [e] else []).
Proof.
  unfold shutdown_steps. rewrite filter_app. f_equal.
  by destruct e.
Qed.

Lemma close_cb_calls_snoc tr e :
  close_cb_calls (tr ++ [e]) =
  close_cb_calls tr + match e with EvCloseCb => 1 | _ => 0 end.
Proof. unfold close_cb_calls. rewrite omap_app, length_app. by destruct e. Qed.

Lemma sync_cancels_snoc tr e :
  sync_cancels (tr ++ [e]) =
  sync_cancels tr + match e with EvSyncCancel => 1 | _ => 0 end.
Proof. unfold sync_cancels. rewrite omap_app, length_app. by destruct e. Qed.

#[local] Hint Rewrite has_shutdown_snoc before_shutdown_snoc shutdown_steps_snoc
  close_cb_calls_snoc sync_cancels_snoc : trace.

#[local] Arguments has_shutdown : simpl never.
#[local] Arguments before_shutdown : simpl never.
#[local] Arguments shutdown_steps : simpl never.
#[local] Arguments close_cb_calls : simpl never.
#[local] Arguments sync_cancels : simpl never.

Ltac teardown_cases :=
  repeat first
    [ done
    | progress cbn in *
    | progress (autorewrite with trace in * )
    | match goal with
      | H : has_shutdown ?t = _ |- context [has_shutdown ?t] => rewrite H
      end
    | case_match; simplify_eq ].

Ltac teardown_goal :=
  rewrite ?orb_false_r, ?Nat.add_0_r, ?app_nil_r;
  split_and?; first [ done | lia | idtac ].

Lemma teardown_inv_reader s env :
  teardown_inv stats cb s → teardown_inv stats cb (ListenForRequests env s).
Proof.
  destruct s as [c pc rc wp]. unfold teardown_inv, not_shut_down. cbn.
  intros [Hcb H].
  unfold_reader.
  destruct wp; cbn in *; destruct_and?.
  all: teardown_cases.
  all: teardown_goal.
Qed.

Lemma teardown_inv_writer s env :
  teardown_inv stats cb s → teardown_inv stats cb (response_sender env s).
Proof.
  destruct s as [c pc rc wp]. unfold teardown_inv, not_shut_down. cbn.
  intros [Hcb H].
  unfold_writer. unfold IsRequestTasksEmpty, Size.
  destruct wp; cbn in *; destruct_and?.
  all: teardown_cases.
  all: teardown_goal.
  all: rewrite ?before_shutdown_all by done; try done.
  all: by match goal with
          | H : shutdown_steps _ = [], H' : items _ = [] |- _ => rewrite H, H'
          end.
Qed.

Lemma teardown_inv_step s a :
  teardown_inv stats cb s → teardown_inv stats cb (step a s).
Proof.
  destruct a as [env|env|]; cbn.
  - apply teardown_inv_reader.
  - apply teardown_inv_writer.
  - destruct s as [c pc rc wp]. unfold teardown_inv, not_shut_down, Stop. cbn.
    intros [Hcb H]. split; [done|].
    destruct wp; cbn in *; destruct_and?; teardown_cases; teardown_goal.
Qed.

Lemma teardown_inv_connect :
  teardown_inv stats cb (connect config stats cb).
Proof. by destruct cb. Qed.

Lemma teardown_inv_run acts :
  teardown_inv stats cb (run acts (connect config stats cb)).
Proof.
  apply run_invariant; [apply teardown_inv_connect|apply teardown_inv_step].
Qed.



(** ** Accounting *)

Lemma attempted_snoc tr e :
  attempted (tr ++ [e]) = attempted tr ++ match e with EvPush id _ => [id] | _ => [] end.
Proof. unfold attempted. rewrite omap_app. by destruct e. Qed.

#[local] Hint Rewrite attempted_snoc : trace.
#[local] Arguments attempted : simpl never.

(** Every [Push] either succeeds or is refused. *)
Lemma attempted_length tr :
  length (attempted tr) = length (pushed tr) + length (refused tr).
Proof.
  induction tr as [|e tr IH] using rev_ind; [done|].
  autorewrite with trace. rewrite !length_app, IH.
  destruct e as [| | |id ok| | | | | | | | | | | | | |]; try destruct ok; cbn; lia.
Qed.

Ltac accounting_goal :=
  rewrite ?app_nil_r, ?length_app; cbn;
  first [ done | congruence | lia | idtac ].

Lemma accounting_inv_step s a : accounting_inv stats s → accounting_inv stats (step a s).
Proof.
  destruct s as [c pc rc wp]. intros [H1 H2 H3 H4]. cbn in *.
  destruct a as [env|env|]; cbn.
  - unfold_reader. task_cases.
    all: split; cbn; autorewrite with trace; accounting_goal.
  - unfold_writer. task_cases.
    all: split; cbn; autorewrite with trace; accounting_goal.
  - split; cbn; autorewrite with trace; accounting_goal.
Qed.

Lemma accounting_inv_run acts :
  accounting_inv stats (run acts (connect config stats cb)).
Proof.
  apply run_invariant; [|apply accounting_inv_step].
  destruct cb; split; try reflexivity; unfold incremented, decremented; cbn; lia.
Qed.

(** After [Shutdown], [active_request_count] exceeds its value before the
    connection by the number of refused pushes: it is back exactly when no
    [Push] was refused. *)
Lemma active_request_count_after_shutdown acts :
  let s := run acts (connect config stats cb) in
  writer s = WDone →
  active_request_count (stats_ (conn s)) =
    (active_request_count stats + Z.of_nat (length (refused (trace (conn s)))))%Z.
Proof.
  cbn. intros Hw.
  destruct (accounting_inv_run acts) as [Hi Hd Ha _].
  destruct (pipeline_inv_run acts) as [H1 _ H3 _ _ _ _ _ _].
  destruct (teardown_inv_run acts) as [_ H].
  rewrite Hw in H. destruct H as (_ & Hq & _).
  unfold queued in H1. rewrite Hq in H1. cbn in H1. rewrite app_nil_r in H1.
  rewrite Ha, Hd, Hi, attempted_length, H3, H1. lia.
Qed.

End Connected.



(** [NewRequest] counts the request before it pushes it: whatever [Push]
    answers, the counter has gone up, and a refused slot is not queued. *)
Lemma NewRequest_counts_before_push id cancelled c ok q :
  is_accepting_requests_ c = true →
  Push cancelled (mkItem id (StartRequestTask id)) (request_tasks_ c) = Some (ok, q) →
  ∃ c', NewRequest id cancelled c = Some (ok, c') ∧
        active_request_count (stats_ c') = (active_request_count (stats_ c) + 1)%Z ∧
        (ok = false → items (request_tasks_ c') = items (request_tasks_ c)).
Proof.
  intros Hacc Hpush. unfold NewRequest. rewrite Hacc. cbn.
  destruct (IsFinal (deref c id)); cbn; rewrite Hpush; eexists.
  all: split; [reflexivity|]; cbn; split; [done|].
  all: intros ->; unfold Push in Hpush; by repeat (case_match; simplify_eq).
Qed.

(** C6 at the failing input: [NewRequest] has counted the third request when
    its [Push] is refused; the request never reaches the writer, and after
    [Shutdown] the counter is one above its value before the connection. *)
Lemma refused_push_is_counted_and_never_uncounted :
  writer refused_push = WDone ∧
  incremented (trace (conn refused_push)) = [0; 1; 2] ∧
  pushed (trace (conn refused_push)) = [0; 1] ∧
  refused (trace (conn refused_push)) = [2] ∧
  decremented (trace (conn refused_push)) = [0; 1] ∧
  active_request_count (stats_ (conn refused_push))
    = (active_request_count sample_stats + 1)%Z.
Proof. repeat split; reflexivity. Qed.
